(** * Verification model of the SMTP submission worker (workers/smtp.js)

    A shallow embedding of the parts of the worker that decide which
    account owns a submitted message, how the message pipeline rewrites
    headers, how the end-of-data handler reacts, how the shared disabled
    command list is reconciled on connect, how SMTP authentication
    resolves the account, how the request/response bridge with the parent
    thread correlates calls and responses, and how the Bull dashboard
    router (unnamed/part_000) rewrites request paths. *)

From stdpp Require Import base gmap strings list fin_maps pretty.
From Stdlib Require Import ZArith Ascii.

Local Open Scope list_scope.

(* ------------------------------------------------------------------ *)
(** ** JavaScript values used by the worker *)

(** A JS [Error] object together with the extra properties the worker
    assigns to it ([err.code], [err.statusCode], [err.responseCode]). *)
Record Error := mkError {
  err_message : string;
  err_code : option string;
  err_statusCode : option Z;
  err_responseCode : option Z
}.

Definition new_Error (msg : string) : Error := mkError msg None None None.

(** Truthiness of an optional string property ([undefined] and [""] are
    falsy). *)
Definition str_truthy (v : option string) : bool :=
  match v with
  | Some s => negb (String.eqb s "")
  | None => false
  end.

(** The value itself when it is truthy. *)
Definition truthy_str (v : option string) : option string :=
  if str_truthy v then v else None.

Definition nat_truthy (v : option nat) : option nat :=
  match v with
  | Some (S n) => Some (S n)
  | _ => None
  end.

Definition Z_truthy (v : option Z) : bool :=
  match v with
  | Some z => negb (Z.eqb z 0)
  | None => false
  end.

(* ------------------------------------------------------------------ *)
(** ** Message pipeline: Splitter -> HeadersRewriter -> Joiner *)

(** A header line as mailsplit keeps it: the lower-cased key, the value
    [getFirst] extracts, and the raw line that the joiner writes back. *)
Record HeaderLine := mkHeaderLine {
  hl_key : string;
  hl_value : string;
  hl_line : string
}.

(** A message as the splitter hands it on: the header block followed by
    the body chunks.  Body chunks are passed through untouched by every
    stage, so their type is left open; [chunk_length] is [chunk.length]. *)
Record Message (Chunk : Type) := mkMessage {
  msg_headers : list HeaderLine;
  msg_body : list Chunk
}.
Arguments mkMessage {Chunk}.
Arguments msg_headers {Chunk}.
Arguments msg_body {Chunk}.

(** mailsplit [Headers.getFirst(key)]: value of the first line with that
    key, [''] when there is none. *)
Fixpoint getFirst (lines : list HeaderLine) (key : string) : string :=
  match lines with
  | [] => ""
  | l :: rest => if String.eqb (hl_key l) key then hl_value l else getFirst rest key
  end.

(** mailsplit [Headers.remove(key)]: drops every line with that key. *)
Definition headers_remove (lines : list HeaderLine) (key : string) : list HeaderLine :=
  List.filter (fun l => negb (String.eqb (hl_key l) key)) lines.

(** The out-of-band metadata object [meta] of [processMessage]. *)
Record MessageMeta := mkMeta { requestedAccount : option string }.

Definition empty_meta : MessageMeta := mkMeta None.

(** The callback given to [HeadersRewriter] in [processMessage]
    (lines 129-135): read the first [x-ee-account] value, remove the
    header, and record the value in [meta] when it is truthy. *)
Definition rewrite_headers (headers : list HeaderLine) (meta : MessageMeta)
  : list HeaderLine * MessageMeta :=
  let requested := getFirst headers "x-ee-account" in
  let headers' := headers_remove headers "x-ee-account" in
  if str_truthy (Some requested) then (headers', mkMeta (Some requested))
  else (headers', meta).

(** Modelled from the spec: [HeadersRewriter] (lib/headers-rewriter, not
    part of src/).  Per the spec it hands the header block to the callback
    and forwards the (possibly modified) header block, and every other
    part unchanged, to the next stage. *)
Definition HeadersRewriter {Chunk}
    (cb : list HeaderLine -> MessageMeta -> list HeaderLine * MessageMeta)
    (m : Message Chunk) (meta : MessageMeta) : Message Chunk * MessageMeta :=
  let '(hs, meta') := cb (msg_headers m) meta in
  (mkMessage hs (msg_body m), meta').

(** A readable stream object as far as [onData] looks at it: the message
    it yields and its own [sizeExceeded] property ([None] when the object
    has no such property, as a fresh mailsplit [Joiner]). *)
Record Stream (Chunk : Type) := mkStream {
  st_message : Message Chunk;
  st_sizeExceeded : option bool
}.
Arguments mkStream {Chunk}.
Arguments st_message {Chunk}.
Arguments st_sizeExceeded {Chunk}.

(** [processMessage(stream, session, meta)] (lines 124-141):
    [stream.pipe(splitter).pipe(headersRewriter).pipe(joiner)] evaluates
    to the [joiner] object, a new [Joiner] that yields the reassembled
    message and carries no [sizeExceeded] property. *)
Definition processMessage {Chunk} (stream : Stream Chunk) (meta : MessageMeta)
  : Stream Chunk * MessageMeta :=
  let '(m', meta') := HeadersRewriter rewrite_headers (st_message stream) meta in
  (mkStream m' None, meta').

(* ------------------------------------------------------------------ *)
(** ** Account resolution: checkAccountData *)

(** An [Account] handle; only the account id matters here (the [redis],
    [call] and [secret] capabilities are carried along opaquely). *)
Record Account := mkAccount {
  acc_account : string;
  acc_secret : option string
}.

(** Outcome of [accountObject.loadAccountData()] (external). *)
Inductive LoadOutcome :=
  | LoadThrows (e : Error)
  | LoadReturns (data : option string).

(** Outcome of an awaited promise: fulfilled or rejected. *)
Inductive Result (A : Type) :=
  | Ok (a : A)
  | Err (e : Error).
Arguments Ok {A}.
Arguments Err {A}.

(** The external collaborators [checkAccountData] awaits. *)
Record Env := mkEnv {
  env_getSecret : Result (option string);
  env_load : string -> LoadOutcome
}.

(** The session object: its identity (the key of the [WeakMap]) and the
    [eeAuthEnabled] flag stamped by [onConnect]. *)
Record Session := mkSession {
  sess_id : nat;
  eeAuthEnabled : bool;
  sess_from : string;
  sess_to : list string
}.

(** [ACCOUNT_CACHE]: the WeakMap from sessions to account handles. *)
Abbreviation AccountCache := (gmap nat Account).

Inductive LogEntry :=
  | LogInfo (msg account : string)
  | LogError (msg account : string) (e : Error).

Definition err_no_sender : Error :=
  mkError "Sender account ID not provided, can not send mail" None None (Some 451%Z).

Definition err_failed_load : Error :=
  mkError "Failed to load account" None None (Some 451%Z).

(** Lines 164-176, after [accountObject] has been determined. *)
Definition check_tail (session : Session) (meta : MessageMeta)
    (accountObject : option Account) : Result Account :=
  if negb (eeAuthEnabled session) && negb (str_truthy (requestedAccount meta))
     && negb (bool_decide (is_Some accountObject))
  then Err err_no_sender
  else match accountObject with
       | None => Err err_failed_load
       | Some a => Ok a
       end.

(** [checkAccountData(session, messageMeta)] (lines 143-177), threading
    the cache and the log.  [await getSecret()] rejecting makes the whole
    function reject with that error. *)
Definition checkAccountData (env : Env) (cache : AccountCache)
    (session : Session) (meta : MessageMeta)
  : AccountCache * list LogEntry * Result Account :=
  match (if eeAuthEnabled session then None else truthy_str (requestedAccount meta)) with
  | Some req =>
    match env_getSecret env with
    | Err e => (cache, [], Err e)
    | Ok secret =>
      let accountObject := mkAccount req secret in
      let '(cache', logs) :=
        match env_load env req with
        | LoadReturns (Some _) =>
            (<[sess_id session := accountObject]> cache,
             [LogInfo "Resolved requested account" req])
        | LoadReturns None => (cache, [])
        | LoadThrows e => (cache, [LogError "Failed resolving requested account" req e])
        end in
      (cache', logs, check_tail session meta (Some accountObject))
    end
  | None => (cache, [], check_tail session meta (cache !! sess_id session))
  end.

(* ------------------------------------------------------------------ *)
(** ** End of DATA: serverOptions.onData *)

(** [MAX_SIZE = 20 * 1024 * 1024] (line 27), passed as [size] to the
    smtp-server. *)
Definition MAX_SIZE : N := 20 * 1024 * 1024.

Section OnData.

Context {Chunk : Type}.
(** [chunk.length] *)
Variable chunk_length : Chunk -> N.

(** Byte count of a message as received on the wire. *)
Definition message_size (m : Message Chunk) : N :=
  (foldr (fun l acc => N.of_nat (String.length (hl_line l)) + 2 + acc) 2 (msg_headers m)
   + foldr (fun c acc => chunk_length c + acc) 0 (msg_body m))%N.

(** The data stream smtp-server hands to [onData]: it counts the bytes
    it forwards and sets its own [sizeExceeded] property once the count
    passes the configured [size]. *)
Definition smtp_data_stream (m : Message Chunk) : Stream Chunk :=
  mkStream m (Some (MAX_SIZE <? message_size m)%N).

Definition bool_truthy (v : option bool) : bool :=
  match v with Some true => true | _ => false end.

Record Payload := mkPayload {
  env_from : string;
  env_to : list string;
  raw : Message Chunk
}.

(** Result of [accountObject.queueMessage(payload)] (external); [sendAt]
    is kept as its ISO-8601 rendering. *)
Record QueueResult := mkQueueResult {
  qr_messageId : string;
  qr_sendAt : string;
  qr_queueId : string
}.

(** What [onData] does, in order: calls into the account resolver and
    the queue, metrics posts, and the final smtp-server [callback]. *)
Inductive Effect :=
  | ECheckAccountData
  | EQueueMessage (acc : Account) (p : Payload)
  | EMetrics (event : string)
  | ECallback (r : Result string).

Definition err_oversize : Error :=
  mkError "Message exceeds fixed maximum message size" None None (Some 552%Z).

(** [serverOptions.onData(rawStream, session, callback)] (lines 228-293).
    The 'readable' handler keeps the chunks it reads while
    [stream.sizeExceeded] is falsy; the 'end' handler tests the same
    property of [stream], the object [processMessage] returned. *)
Definition onData (env : Env) (queueMessage : Account -> Payload -> Result QueueResult)
    (cache : AccountCache) (rawStream : Stream Chunk) (session : Session)
  : AccountCache * list Effect :=
  let '(stream, messageMeta) := processMessage rawStream empty_meta in
  let chunks := if bool_truthy (st_sizeExceeded stream)
                then mkMessage [] [] else st_message stream in
  if bool_truthy (st_sizeExceeded stream) then
    (cache, [ECallback (Err err_oversize)])
  else
    let '(cache', _, r) := checkAccountData env cache session messageMeta in
    match r with
    | Err e => (cache', [ECheckAccountData; ECallback (Err e)])
    | Ok accountObject =>
      let payload := mkPayload (sess_from session) (sess_to session) chunks in
      match queueMessage accountObject payload with
      | Ok res =>
        (cache', [ECheckAccountData; EQueueMessage accountObject payload;
                  EMetrics "smtpSubmitQueued";
                  ECallback (Ok ("Message queued for delivery as " ++ qr_queueId res
                                 ++ " (" ++ qr_sendAt res ++ ")")%string)])
      | Err e =>
        (cache', [ECheckAccountData; EQueueMessage accountObject payload;
                  EMetrics "smtpSubmitFail"; ECallback (Err e)])
      end
    end.

End OnData.

(* ------------------------------------------------------------------ *)
(** ** Connection setup: serverOptions.onConnect *)

Definition includes (l : list string) (x : string) : bool :=
  existsb (String.eqb x) l.

(** [Array.from(new Set(l))]: first occurrences, in order. *)
Definition array_from_set (l : list string) : list string :=
  fold_left (fun acc x => if includes acc x then acc else acc ++ [x]) l [].

(** [set.delete(x)] on a set kept as its insertion-ordered elements. *)
Definition set_delete (s : list string) (x : string) : list string :=
  List.filter (fun y => negb (String.eqb y x)) s.

(** The shared part of [server.options] that [onConnect] writes. *)
Record ServerOptions := mkServerOptions {
  disabledCommands : list string;
  useProxy : bool
}.

(** [serverOptions.disabledCommands] as set up in [init] (line 183). *)
Definition initial_disabledCommands : list string := ["STARTTLS"].

(** The reconciliation of [server.options.disabledCommands] done in the
    first [.then] of [onConnect] (lines 197-205). *)
Definition reconcile (authEnabled : bool) (disabled : list string) : list string :=
  if authEnabled && includes disabled "AUTH" then
    set_delete (array_from_set disabled) "AUTH"
  else if negb authEnabled && negb (includes disabled "AUTH") then
    disabled ++ ["AUTH"]
  else disabled.

(** [onConnect(session, callback)] once both settings reads succeed:
    reconcile the command list, stamp [session.eeAuthEnabled] and store
    the proxy flag. *)
Definition onConnect (authEnabled smtpServerProxy : bool) (opts : ServerOptions)
    (session : Session) : ServerOptions * Session :=
  let opts1 := mkServerOptions (reconcile authEnabled (disabledCommands opts)) (useProxy opts) in
  let session' := mkSession (sess_id session) authEnabled (sess_from session) (sess_to session) in
  (mkServerOptions (disabledCommands opts1) smtpServerProxy, session').

(** A run of connection setups, the settings observed by each. *)
Definition onConnect_run (settings : list (bool * bool)) (opts : ServerOptions)
  : ServerOptions :=
  fold_left (fun o '(a, p) => fst (onConnect a p o (mkSession 0 false "" []))) settings opts.

(* ------------------------------------------------------------------ *)
(** ** Request/response bridge with the parent thread *)

Module RpcBridge.

(** State of a promise returned by [call]. *)
Inductive PromiseState :=
  | PPending
  | PResolved (v : option string)
  | PRejected (e : Error).

(** A [callQueue] entry: [{ resolve, reject, timer }].  The two closures
    settle the promise of one call, named here by its call number. *)
Record PendingCall := mkPending {
  pc_promise : nat;
  pc_timer : nat
}.

(** A timer armed by [setTimeout]: when it fires it rejects the promise
    of its call with the timeout error (lines 41-46). *)
Record Timer := mkTimer {
  t_deadline : nat;
  t_promise : nat
}.

(** The [message] argument of [call]; only [message.timeout] is read. *)
Record CallMessage := mkCallMessage {
  cm_timeout : option nat;
  cm_body : string
}.

(** Messages posted to the parent. *)
Inductive OutMsg :=
  | OutCall (mid : string) (message : CallMessage)
  | OutResp (mid : string) (response : option string).

(** Messages received from the parent ([undefined] fields are [None]). *)
Record InMsg := mkInMsg {
  in_cmd : option string;
  in_mid : option string;
  in_error : option string;
  in_code : option string;
  in_statusCode : option Z;
  in_response : option string
}.

(** Worker-side state: [callQueue], the [mids] counter, the clock
    ([Date.now()]), the armed timers, the promises handed out by [call]
    and the messages posted to the parent. *)
Record Bridge := mkBridge {
  callQueue : gmap string PendingCall;
  mids : nat;
  now : nat;
  timers : gmap nat Timer;
  next_timer : nat;
  promises : gmap nat PromiseState;
  posted : list OutMsg
}.

Definition set_callQueue (q : gmap string PendingCall) (b : Bridge) : Bridge :=
  mkBridge q (mids b) (now b) (timers b) (next_timer b) (promises b) (posted b).
Definition set_timers (ts : gmap nat Timer) (b : Bridge) : Bridge :=
  mkBridge (callQueue b) (mids b) (now b) ts (next_timer b) (promises b) (posted b).
Definition set_promises (ps : gmap nat PromiseState) (b : Bridge) : Bridge :=
  mkBridge (callQueue b) (mids b) (now b) (timers b) (next_timer b) ps (posted b).
Definition post (o : OutMsg) (b : Bridge) : Bridge :=
  mkBridge (callQueue b) (mids b) (now b) (timers b) (next_timer b) (promises b) (posted b ++ [o]).

(** [resolve] / [reject]: a promise settles once; later calls do nothing. *)
Definition settle (p : nat) (r : PromiseState) (b : Bridge) : Bridge :=
  match promises b !! p with
  | Some PPending => set_promises (<[p := r]> (promises b)) b
  | _ => b
  end.

(** [clearTimeout(timer)] *)
Definition clearTimeout (t : nat) (b : Bridge) : Bridge :=
  set_timers (delete t (timers b)) b.

(** [`${Date.now()}:${++mids}`] *)
Definition make_mid (time n : nat) : string :=
  (pretty time ++ ":" ++ pretty n)%string.

Definition timeout_error : Error :=
  mkError "Timeout waiting for command response [T4]" (Some "Timeout") (Some 504%Z) None.

(** The delay given to [setTimeout]: [message.timeout || EENGINE_TIMEOUT]. *)
Definition call_delay (EENGINE_TIMEOUT : nat) (message : CallMessage) : nat :=
  match nat_truthy (cm_timeout message) with
  | Some t => t
  | None => EENGINE_TIMEOUT
  end.

(** [call(message)] (lines 37-59) with the configured [EENGINE_TIMEOUT]:
    returns the new state and the call number naming its promise. *)
Definition call (EENGINE_TIMEOUT : nat) (message : CallMessage) (b : Bridge)
  : Bridge * nat :=
  let n := S (mids b) in
  let mid := make_mid (now b) n in
  let delay := call_delay EENGINE_TIMEOUT message in
  let t := next_timer b in
  (mkBridge (<[mid := mkPending n t]> (callQueue b)) n (now b)
            (<[t := mkTimer (now b + delay) n]> (timers b)) (S t)
            (<[n := PPending]> (promises b))
            (posted b ++ [OutCall mid message]), n).

(** The mid of the call [call] issues from state [b]. *)
Definition next_mid (b : Bridge) : string := make_mid (now b) (S (mids b)).

(** A timer firing: the clock reaches its deadline and its callback
    rejects the call's promise with the timeout error. *)
Definition fire_timer (t : nat) (b : Bridge) : Bridge :=
  match timers b !! t with
  | Some tm =>
    let b1 := mkBridge (callQueue b) (mids b) (Nat.max (now b) (t_deadline tm))
                       (delete t (timers b)) (next_timer b) (promises b) (posted b) in
    settle (t_promise tm) (PRejected timeout_error) b1
  | None => b
  end.

(** The outcome a response message carries (lines 333-344). *)
Definition response_outcome (m : InMsg) : PromiseState :=
  if str_truthy (in_error m) then
    PRejected (mkError (default "" (in_error m))
                       (truthy_str (in_code m))
                       (if Z_truthy (in_statusCode m) then in_statusCode m else None)
                       None)
  else PResolved (in_response m).

(** The [callQueue] entry a message answers, when the first branch of the
    handler applies: [message.cmd === 'resp' && message.mid &&
    callQueue.has(message.mid)]. *)
Definition resp_entry (m : InMsg) (b : Bridge) : option (string * PendingCall) :=
  if bool_decide (in_cmd m = Some "resp") then
    match truthy_str (in_mid m) with
    | Some mid =>
      match callQueue b !! mid with
      | Some pc => Some (mid, pc)
      | None => None
      end
    | None => None
    end
  else None.

(** [parentPort.on('message', ...)] (lines 328-366).  An inbound call is
    answered by [onCommand], which resolves with [undefined]. *)
Definition on_message (m : InMsg) (b : Bridge) : Bridge :=
  match resp_entry m b with
  | Some (mid, pc) =>
    let b1 := clearTimeout (pc_timer pc) b in
    let b2 := set_callQueue (delete mid (callQueue b1)) b1 in
    settle (pc_promise pc) (response_outcome m) b2
  | None =>
    if bool_decide (in_cmd m = Some "call") && str_truthy (in_mid m) then
      match in_mid m with
      | Some mid => post (OutResp mid None) b
      | None => b
      end
    else b
  end.

End RpcBridge.

(* ------------------------------------------------------------------ *)
(** ** SMTP authentication: onAuth *)

(** An error thrown by [loadAccountData]: the [Error] and, for Boom
    errors, [err.output.statusCode] ([None] when [err.output] is absent). *)
Record BoomError := mkBoomError {
  boom_err : Error;
  boom_output_statusCode : option Z
}.

(** Outcome of [accountObject.loadAccountData()] as [onAuth] inspects it;
    the data, when present, is given by its [account] field. *)
Inductive AuthLoad :=
  | AuthLoadThrows (e : BoomError)
  | AuthLoadReturns (account : option string).

(** The external collaborators [onAuth] awaits. *)
Record AuthEnv := mkAuthEnv {
  ae_smtpServerPassword : Result (option string);
  ae_getSecret : Result (option string);
  ae_load : string -> AuthLoad
}.

(** The [auth] object smtp-server passes in. *)
Record AuthData := mkAuthData {
  auth_username : string;
  auth_password : string
}.

Inductive AuthLog :=
  | AuthLogError (msg account : string) (e : Error).

Definition err_auth_not_enabled : Error := new_Error "Authentication not enabled".
Definition err_auth_failed : Error := new_Error "Failed to authenticate user".
Definition err_auth_unavailable : Error :=
  mkError "Failed to authenticate user" None (Some 454%Z) None.

(** [onAuth(auth, session)] (lines 90-122): returns the new cache, the
    log, and either the [user] value of the result or the thrown error. *)
Definition onAuth (env : AuthEnv) (cache : AccountCache) (auth : AuthData) (session : Session)
  : AccountCache * list AuthLog * Result string :=
  if negb (eeAuthEnabled session) then (cache, [], Err err_auth_not_enabled)
  else match ae_smtpServerPassword env with
  | Err e => (cache, [], Err e)
  | Ok smtpPassword =>
    if bool_decide (Some (auth_password auth) <> smtpPassword)
    then (cache, [], Err err_auth_failed)
    else match ae_getSecret env with
    | Err e => (cache, [], Err e)
    | Ok secret =>
      let accountObject := mkAccount (auth_username auth) secret in
      match ae_load env (auth_username auth) with
      | AuthLoadThrows be =>
        if bool_decide (boom_output_statusCode be <> Some 404%Z) then
          (cache, [AuthLogError "Failed to load account data" (auth_username auth) (boom_err be)],
           Err err_auth_unavailable)
        else (cache, [], Err err_auth_failed)
      | AuthLoadReturns None => (cache, [], Err err_auth_failed)
      | AuthLoadReturns (Some account) =>
        (<[sess_id session := accountObject]> cache, [], Ok account)
      end
    end
  end.

(* ------------------------------------------------------------------ *)
(** ** Connection setup with its failure paths *)

(** [serverOptions.onConnect] (lines 193-220) with the outcomes of the two
    settings reads: the options, the session, and the argument passed to
    [callback] ([None] for [callback()]). *)
Definition onConnect_full (authRead proxyRead : Result bool) (opts : ServerOptions)
    (session : Session) : ServerOptions * Session * option Error :=
  match authRead with
  | Err e => (opts, session, Some e)
  | Ok authEnabled =>
    let opts1 := mkServerOptions (reconcile authEnabled (disabledCommands opts)) (useProxy opts) in
    let session' := mkSession (sess_id session) authEnabled (sess_from session) (sess_to session) in
    match proxyRead with
    | Err e => (opts1, session', Some e)
    | Ok smtpServerProxy => (mkServerOptions (disabledCommands opts1) smtpServerProxy, session', None)
    end
  end.

(** The shared [serverOptions] after a sequence of connection setups,
    each given by the outcomes of its two settings reads and by the new
    connection's session. *)
Definition onConnect_full_run (setups : list (Result bool * Result bool * Session))
    (opts : ServerOptions) : ServerOptions :=
  fold_left (fun o '(ar, pr, sess) => fst (fst (onConnect_full ar pr o sess))) setups opts.

(* ------------------------------------------------------------------ *)
(** ** Bull dashboard routing (arenaExpress, unnamed/part_000) *)

(** [s.replace(/^\/*/, '')]: the string without its leading slashes. *)
Fixpoint strip_leading_slashes (s : string) : string :=
  match s with
  | String c rest => if Ascii.eqb c "/"%char then strip_leading_slashes rest else s
  | EmptyString => s
  end.

(** [(s || '').toString().replace(/^\/*/, '/')] *)
Definition slash_prefix (s : option string) : string :=
  String "/" (strip_leading_slashes (default "" s)).

(** The base path [arenaExpress] computes from its argument. *)
Definition arena_basePath (basePath : option string) : string := slash_prefix basePath.

(** The router middleware's rewrite of [req.url]. *)
Definition arena_rewrite_url (basePath : option string) (url : option string) : string :=
  (arena_basePath basePath ++ slash_prefix url)%string.

(* ================================================================== *)
(** * Properties *)

(* ------------------------------------------------------------------ *)
(** ** Pipeline and account resolution *)

Section Pipeline.

Context {Chunk : Type}.

Lemma str_truthy_Some (s : string) : str_truthy (Some s) = true <-> s <> "".
Proof.
  unfold str_truthy. rewrite negb_true_iff, String.eqb_neq. tauto.
Qed.

Lemma headers_remove_no_key (hs : list HeaderLine) (key : string) :
  Forall (fun l => hl_key l <> key) (headers_remove hs key).
Proof.
  unfold headers_remove. apply Forall_forall. intros l Hl.
  apply list_elem_of_In, filter_In in Hl as [_ Hk]. apply negb_true_iff, String.eqb_neq in Hk. exact Hk.
Qed.

(** The pipeline's effect on a message: the header block loses every
    [x-ee-account] line, the body is untouched, the joiner yielded has no
    [sizeExceeded] property, and [meta] records the first value when it
    is non-empty. *)
Lemma processMessage_eq (m : Message Chunk) (f : option bool) (meta : MessageMeta) :
  processMessage (mkStream m f) meta =
  (mkStream (mkMessage (headers_remove (msg_headers m) "x-ee-account") (msg_body m)) None,
   if str_truthy (Some (getFirst (msg_headers m) "x-ee-account"))
   then mkMeta (Some (getFirst (msg_headers m) "x-ee-account")) else meta).
Proof.
  unfold processMessage, HeadersRewriter, rewrite_headers; simpl.
  unfold str_truthy. destruct (negb _); reflexivity.
Qed.

End Pipeline.

(** Claim C1 (amended).  With authentication not required and a
    non-empty first [x-ee-account] value [v], and a secret lookup that
    succeeds: when the account load returns data, [checkAccountData] on
    the meta produced by [processMessage] returns a handle whose account
    id is [v] and caches that handle on the session; when the load throws
    or returns no data, the cache is left as it was.  The reassembled
    message has no [x-ee-account] line, keeps every other header line in
    order and keeps the body. *)
Theorem directive_resolves_and_is_stripped {Chunk : Type} (env : Env) (cache : AccountCache)
    (session : Session) (m : Message Chunk) (f : option bool) (v : string)
    (secret : option string) :
  eeAuthEnabled session = false ->
  getFirst (msg_headers m) "x-ee-account" = v ->
  v <> "" ->
  env_getSecret env = Ok secret ->
  let '(out, meta) := processMessage (mkStream m f) empty_meta in
  ((forall data, env_load env v = LoadReturns (Some data) ->
     exists acc logs cache',
       checkAccountData env cache session meta = (cache', logs, Ok acc) /\
       acc_account acc = v /\ cache' !! sess_id session = Some acc) /\
   ((forall data, env_load env v <> LoadReturns (Some data)) ->
     fst (fst (checkAccountData env cache session meta)) = cache)) /\
  Forall (fun l => hl_key l <> "x-ee-account") (msg_headers (st_message out)) /\
  msg_headers (st_message out) = headers_remove (msg_headers m) "x-ee-account" /\
  msg_body (st_message out) = msg_body m.
Proof.
  intros Hauth Hv Hne Hsec.
  rewrite processMessage_eq, Hv.
  assert (Ht : str_truthy (Some v) = true) by (apply str_truthy_Some; exact Hne).
  rewrite Ht. split; [| split; [apply headers_remove_no_key | split; reflexivity]].
  unfold checkAccountData, truthy_str; simpl requestedAccount. rewrite Hauth, Ht, Hsec.
  split.
  - intros data Hload. rewrite Hload.
    unfold check_tail; simpl requestedAccount. rewrite Hauth, Ht. simpl.
    eexists _, _, _. split; [reflexivity |]. split; [reflexivity |].
    apply lookup_insert_eq.
  - intros Hfail. destruct (env_load env v) as [e | [data |]] eqn:Hl.
    + reflexivity.
    + exfalso. exact (Hfail data eq_refl).
    + reflexivity.
Qed.

Lemma directive_resolves_and_is_stripped_witness :
  let m := mkMessage [mkHeaderLine "subject" "hi" "Subject: hi";
                      mkHeaderLine "x-ee-account" "acct1" "X-EE-Account: acct1"] ["body"%string] in
  let env := mkEnv (Ok (Some "secret"%string)) (fun _ => LoadReturns (Some "acct1"%string)) in
  let session := mkSession 1 false "a@example.com" ["b@example.com"%string] in
  let '(out, meta) := processMessage (mkStream m None) empty_meta in
  ((forall data, env_load env "acct1" = LoadReturns (Some data) ->
     exists acc logs cache',
       checkAccountData env ∅ session meta = (cache', logs, Ok acc) /\
       acc_account acc = "acct1" /\ cache' !! sess_id session = Some acc) /\
   ((forall data, env_load env "acct1" <> LoadReturns (Some data)) ->
     fst (fst (checkAccountData env ∅ session meta)) = ∅)) /\
  Forall (fun l => hl_key l <> "x-ee-account") (msg_headers (st_message out)) /\
  msg_headers (st_message out) = headers_remove (msg_headers m) "x-ee-account" /\
  msg_body (st_message out) = msg_body m.
Proof.
  intros m env session.
  apply (directive_resolves_and_is_stripped env ∅ session m None "acct1" (Some "secret"%string));
    [reflexivity | reflexivity | discriminate | reflexivity].
Defined.

(** Claim C1 fails as stated: when the account load throws, the handle
    for the directive is not cached on the session. *)
Lemma directive_not_cached_on_load_failure :
  let m := mkMessage [mkHeaderLine "x-ee-account" "acct1" "X-EE-Account: acct1"] ["body"%string] in
  let env := mkEnv (Ok (Some "secret"%string))
                   (fun _ => LoadThrows (new_Error "Account record not found")) in
  let session := mkSession 1 false "a@example.com" ["b@example.com"%string] in
  let '(_, meta) := processMessage (mkStream m None) empty_meta in
  let '(cache', _, r) := checkAccountData env ∅ session meta in
  r = Ok (mkAccount "acct1" (Some "secret"%string)) /\ cache' !! sess_id session = None.
Proof. vm_compute. split; reflexivity. Qed.

(** Claim C4.  With authentication not required, no directive captured
    and no handle cached for the session, [checkAccountData] fails with
    the 'Sender account ID not provided' error, response code 451, and
    leaves the cache unchanged. *)
Theorem no_directive_no_cache_fails (env : Env) (cache : AccountCache)
    (session : Session) (meta : MessageMeta) :
  eeAuthEnabled session = false ->
  str_truthy (requestedAccount meta) = false ->
  cache !! sess_id session = None ->
  checkAccountData env cache session meta = (cache, [], Err err_no_sender) /\
  err_message err_no_sender = "Sender account ID not provided, can not send mail" /\
  err_responseCode err_no_sender = Some 451%Z.
Proof.
  intros Hauth Hreq Hc. split; [| split; reflexivity].
  unfold checkAccountData, truthy_str. rewrite Hauth, Hreq, Hc.
  unfold check_tail. rewrite Hauth, Hreq. reflexivity.
Qed.

Lemma no_directive_no_cache_fails_witness :
  let session := mkSession 7 false "a@example.com" ["b@example.com"%string] in
  let env := mkEnv (Ok None) (fun _ => LoadReturns None) in
  checkAccountData env ∅ session empty_meta = (∅, [], Err err_no_sender) /\
  err_message err_no_sender = "Sender account ID not provided, can not send mail" /\
  err_responseCode err_no_sender = Some 451%Z.
Proof.
  intros session env.
  apply (no_directive_no_cache_fails env ∅ session empty_meta);
    [reflexivity | reflexivity | reflexivity].
Defined.

(** Claim C5 (code defect).  Authentication not required, directive
    [acct1], empty cache, the account load throws: [checkAccountData]
    logs the failure and caches nothing, but then returns the handle it
    built for [acct1] instead of failing with 'Failed to load account'. *)
Lemma failed_load_returns_unloaded_handle :
  let session := mkSession 1 false "a@example.com" ["b@example.com"%string] in
  let load_err := new_Error "Account record not found" in
  let env := mkEnv (Ok (Some "secret"%string)) (fun _ => LoadThrows load_err) in
  checkAccountData env ∅ session (mkMeta (Some "acct1"%string)) =
  (∅, [LogError "Failed resolving requested account" "acct1" load_err],
   Ok (mkAccount "acct1" (Some "secret"%string))).
Proof. reflexivity. Qed.

(** Claim C8.  When authentication is required, the result of
    [checkAccountData] does not depend on the captured directive: it is
    the cached handle, or the 'Failed to load account' error, with the
    cache unchanged.  The pipeline still strips [x-ee-account] from any
    message. *)
Theorem auth_result_ignores_directive {Chunk : Type} (env : Env) (cache : AccountCache)
    (session : Session) (meta1 meta2 : MessageMeta) (m : Message Chunk) (f : option bool) :
  eeAuthEnabled session = true ->
  checkAccountData env cache session meta1 = checkAccountData env cache session meta2 /\
  checkAccountData env cache session meta1 =
    (cache, [], match cache !! sess_id session with
                | Some a => Ok a
                | None => Err err_failed_load
                end) /\
  Forall (fun l => hl_key l <> "x-ee-account")
         (msg_headers (st_message (fst (processMessage (mkStream m f) meta1)))).
Proof.
  intros Hauth.
  assert (E : forall meta, checkAccountData env cache session meta =
    (cache, [], match cache !! sess_id session with
                | Some a => Ok a
                | None => Err err_failed_load
                end)).
  { intros meta. unfold checkAccountData. rewrite Hauth.
    unfold check_tail. rewrite Hauth. simpl.
    destruct (cache !! sess_id session); reflexivity. }
  split; [rewrite !E; reflexivity |]. split; [apply E |].
  rewrite processMessage_eq. apply headers_remove_no_key.
Qed.

Lemma auth_result_ignores_directive_witness :
  let session := mkSession 2 true "a@example.com" ["b@example.com"%string] in
  let env := mkEnv (Ok None) (fun _ => LoadReturns None) in
  let cache : AccountCache := {[ 2 := mkAccount "owner" None ]} in
  let m := mkMessage [mkHeaderLine "x-ee-account" "other" "X-EE-Account: other"] ["body"%string] in
  eeAuthEnabled session = true /\
  (checkAccountData env cache session (mkMeta (Some "other"%string)) =
     checkAccountData env cache session empty_meta /\
   checkAccountData env cache session (mkMeta (Some "other"%string)) =
    (cache, [], match cache !! sess_id session with
                | Some a => Ok a
                | None => Err err_failed_load
                end) /\
   Forall (fun l => hl_key l <> "x-ee-account")
     (msg_headers (st_message (fst (processMessage (mkStream m None) (mkMeta (Some "other"%string))))))).
Proof.
  intros session env cache m. split; [reflexivity |].
  apply (auth_result_ignores_directive env cache session _ _ m None). reflexivity.
Defined.

(** Claim C9.  When the first [x-ee-account] value is empty, the
    pipeline still removes the header but leaves [meta] as it was, so a
    message starting from the empty [messageMeta] of [onData] reaches
    [checkAccountData] with no directive. *)
Theorem empty_directive_is_absent {Chunk : Type} (m : Message Chunk) (f : option bool)
    (meta : MessageMeta) :
  getFirst (msg_headers m) "x-ee-account" = "" ->
  processMessage (mkStream m f) meta =
    (mkStream (mkMessage (headers_remove (msg_headers m) "x-ee-account") (msg_body m)) None,
     meta) /\
  snd (processMessage (mkStream m f) empty_meta) = empty_meta.
Proof.
  intros He. rewrite !processMessage_eq, He. split; reflexivity.
Qed.

Lemma empty_directive_is_absent_witness :
  let m := mkMessage [mkHeaderLine "x-ee-account" "" "X-EE-Account:";
                      mkHeaderLine "x-ee-account" "acct2" "X-EE-Account: acct2"] ["body"%string] in
  getFirst (msg_headers m) "x-ee-account" = "" /\
  (processMessage (mkStream m None) empty_meta =
    (mkStream (mkMessage (headers_remove (msg_headers m) "x-ee-account") (msg_body m)) None,
     empty_meta) /\
   snd (processMessage (mkStream m None) empty_meta) = empty_meta).
Proof.
  intros m. split; [reflexivity |].
  apply (empty_directive_is_absent m None empty_meta). reflexivity.
Defined.

(* ------------------------------------------------------------------ *)
(** ** End of DATA *)

(** Claim C3 fails on the code.  A 25 MiB message (chunks described by
    their byte count) arrives on a session without authentication, with
    a routing header for an existing account.  smtp-server flags its data
    stream as oversize, yet [onData] resolves the account, queues the
    message and accepts it: the 'end' handler reads [sizeExceeded] from
    the joiner returned by [processMessage], which never has it. *)
Lemma oversize_message_is_queued :
  let m : Message N := mkMessage [mkHeaderLine "x-ee-account" "acct1" "X-EE-Account: acct1"]
                                 [25 * 1024 * 1024]%N in
  let env := mkEnv (Ok (Some "secret"%string)) (fun _ => LoadReturns (Some "acct1"%string)) in
  let queue := fun (_ : Account) (_ : Payload) =>
                 Ok (mkQueueResult "<m1@example.com>" "2026-10-16T00:00:00.000Z" "q1") in
  let session := mkSession 1 false "a@example.com" ["b@example.com"%string] in
  let acc := mkAccount "acct1" (Some "secret"%string) in
  let payload := mkPayload "a@example.com" ["b@example.com"%string] (mkMessage [] [25 * 1024 * 1024]%N) in
  (MAX_SIZE < message_size id m)%N /\
  (MAX_SIZE < message_size id (st_message (fst (processMessage (smtp_data_stream id m) empty_meta))))%N /\
  st_sizeExceeded (smtp_data_stream id m) = Some true /\
  onData env queue ∅ (smtp_data_stream id m) session =
  ({[1 := acc]},
   [ECheckAccountData; EQueueMessage acc payload; EMetrics "smtpSubmitQueued";
    ECallback (Ok "Message queued for delivery as q1 (2026-10-16T00:00:00.000Z)"%string)]).
Proof. vm_compute. repeat split; reflexivity. Qed.

(* ------------------------------------------------------------------ *)
(** ** Reconciliation of the disabled command list *)

Lemma includes_spec (l : list string) (x : string) : includes l x = true <-> x ∈ l.
Proof.
  unfold includes. rewrite existsb_exists, list_elem_of_In. split.
  - intros [y [Hy Heq]]. apply String.eqb_eq in Heq. subst. exact Hy.
  - intros Hx. exists x. split; [exact Hx | apply String.eqb_refl].
Qed.

Lemma array_from_set_acc (l acc : list string) :
  NoDup acc ->
  NoDup (fold_left (fun acc x => if includes acc x then acc else acc ++ [x]) l acc) /\
  (forall y, y ∈ fold_left (fun acc x => if includes acc x then acc else acc ++ [x]) l acc
             <-> y ∈ acc \/ y ∈ l).
Proof.
  revert acc. induction l as [| x l IH]; intros acc Hnd; simpl.
  - split; [exact Hnd |]. intros y. rewrite elem_of_nil. tauto.
  - destruct (includes acc x) eqn:Hi.
    + apply includes_spec in Hi.
      destruct (IH acc Hnd) as [H1 H2]. split; [exact H1 |].
      intros y. rewrite H2, elem_of_cons. split; [tauto |].
      intros [Hy | [-> | Hy]]; auto.
    + assert (Hnx : x ∉ acc) by (intros Hx; apply includes_spec in Hx; congruence).
      assert (Hnd' : NoDup (acc ++ [x])).
      { apply NoDup_app. split; [exact Hnd |]. split.
        - intros z Hz Hz'. apply list_elem_of_singleton in Hz'. subst. contradiction.
        - apply NoDup_singleton. }
      destruct (IH (acc ++ [x]) Hnd') as [H1 H2]. split; [exact H1 |].
      intros y. rewrite H2, elem_of_app, list_elem_of_singleton, elem_of_cons. tauto.
Qed.

Lemma array_from_set_spec (l : list string) :
  NoDup (array_from_set l) /\ (forall y, y ∈ array_from_set l <-> y ∈ l).
Proof.
  unfold array_from_set. destruct (array_from_set_acc l [] (NoDup_nil_2)) as [H1 H2].
  split; [exact H1 |]. intros y. rewrite H2, elem_of_nil. tauto.
Qed.

Lemma set_delete_spec (s : list string) (x : string) :
  NoDup s -> NoDup (set_delete s x) /\ (forall y, y ∈ set_delete s x <-> y ∈ s /\ y <> x).
Proof.
  intros Hnd. unfold set_delete. split.
  - apply NoDup_ListNoDup. apply List.NoDup_filter. apply NoDup_ListNoDup. exact Hnd.
  - intros y. rewrite !list_elem_of_In, filter_In, negb_true_iff, String.eqb_neq. tauto.
Qed.

(** One reconciliation keeps the list free of duplicates and leaves
    [AUTH] in it exactly when authentication is not required. *)
Lemma reconcile_spec (a : bool) (l : list string) :
  NoDup l -> NoDup (reconcile a l) /\ ("AUTH" ∈ reconcile a l <-> a = false).
Proof.
  intros Hnd. unfold reconcile.
  destruct a; simpl; destruct (includes l "AUTH") eqn:Hi; simpl.
  - destruct (array_from_set_spec l) as [Hs1 Hs2].
    destruct (set_delete_spec _ "AUTH" Hs1) as [Hd1 Hd2].
    split; [exact Hd1 |]. rewrite Hd2. split; [intros [_ H]; congruence | discriminate].
  - split; [exact Hnd |]. split; [intros H; apply includes_spec in H; congruence | discriminate].
  - split; [exact Hnd |]. split; [reflexivity | intros _; apply includes_spec; exact Hi].
  - split.
    + apply NoDup_app. split; [exact Hnd |]. split.
      * intros z Hz Hz'. apply list_elem_of_singleton in Hz'. subst.
        apply includes_spec in Hz. congruence.
      * apply NoDup_singleton.
    + split; [reflexivity |]. intros _. apply elem_of_app. right. apply list_elem_of_singleton. reflexivity.
Qed.

Lemma onConnect_run_nodup (settings : list (bool * bool)) (opts : ServerOptions) :
  NoDup (disabledCommands opts) -> NoDup (disabledCommands (onConnect_run settings opts)).
Proof.
  revert opts. induction settings as [| [a p] settings IH]; intros opts Hnd; simpl.
  - exact Hnd.
  - apply IH. simpl. apply reconcile_spec. exact Hnd.
Qed.

(** Claim C7.  Starting from the list [init] sets up, after any sequence
    of connection setups the shared [disabledCommands] list has no
    duplicate entries, and contains [AUTH] exactly when the last setup
    observed authentication as not required. *)
Theorem disabledCommands_invariant (settings : list (bool * bool)) (a p proxy0 : bool) :
  let opts := onConnect_run (settings ++ [(a, p)])
                            (mkServerOptions initial_disabledCommands proxy0) in
  NoDup (disabledCommands opts) /\ ("AUTH" ∈ disabledCommands opts <-> a = false).
Proof.
  simpl. unfold onConnect_run. rewrite fold_left_app. simpl.
  apply reconcile_spec. apply onConnect_run_nodup. simpl.
  apply NoDup_singleton.
Qed.

(** Toggling the setting twice in a row, from either starting value. *)
Example disabledCommands_toggle_twice :
  disabledCommands (onConnect_run [(false, false); (true, false); (false, false); (true, false)]
                                  (mkServerOptions initial_disabledCommands false)) = ["STARTTLS"%string] /\
  disabledCommands (onConnect_run [(true, false); (false, false); (false, false); (true, false); (false, false)]
                                  (mkServerOptions initial_disabledCommands false)) = ["STARTTLS"%string; "AUTH"%string].
Proof. split; reflexivity. Qed.

(* ------------------------------------------------------------------ *)
(** ** Request/response bridge *)

Module RpcBridgeFacts.
Import RpcBridge.

Lemma make_mid_nonempty (time n : nat) : str_truthy (Some (make_mid time n)) = true.
Proof.
  unfold make_mid, str_truthy. destruct (pretty time); reflexivity.
Qed.

(** What [call] does to the state. *)
Lemma call_eq (E : nat) (message : CallMessage) (b : Bridge) :
  call E message b =
  (mkBridge (<[next_mid b := mkPending (S (mids b)) (next_timer b)]> (callQueue b))
            (S (mids b)) (now b)
            (<[next_timer b := mkTimer (now b + call_delay E message) (S (mids b))]> (timers b))
            (S (next_timer b))
            (<[S (mids b) := PPending]> (promises b))
            (posted b ++ [OutCall (next_mid b) message]),
   S (mids b)).
Proof. reflexivity. Qed.

(** The handler on a response that matches a pending call whose promise
    is still pending. *)
Lemma on_message_resp (m : InMsg) (b : Bridge) (mid : string) (pc : PendingCall) :
  in_cmd m = Some "resp" ->
  in_mid m = Some mid ->
  str_truthy (Some mid) = true ->
  callQueue b !! mid = Some pc ->
  promises b !! pc_promise pc = Some PPending ->
  on_message m b =
  mkBridge (delete mid (callQueue b)) (mids b) (now b) (delete (pc_timer pc) (timers b))
           (next_timer b) (<[pc_promise pc := response_outcome m]> (promises b)) (posted b).
Proof.
  intros Hc Hm Ht Hq Hp. unfold on_message, resp_entry.
  rewrite Hc, bool_decide_true by reflexivity. rewrite Hm. unfold truthy_str. rewrite Ht, Hq.
  unfold settle, clearTimeout, set_callQueue, set_timers, set_promises. simpl.
  rewrite Hp. reflexivity.
Qed.

(** Claim C2 (code defect).  When the timer armed by [call] fires, the
    promise is rejected with code 'Timeout' and status 504 after the
    configured delay, but the [callQueue] entry of the call stays: the
    timer callback never deletes it. *)
Theorem call_timeout_keeps_entry (E : nat) (message : CallMessage) (b : Bridge) :
  let '(b1, p) := call E message b in
  timers b1 !! next_timer b = Some (mkTimer (now b + call_delay E message) p) /\
  let b2 := fire_timer (next_timer b) b1 in
  promises b2 !! p = Some (PRejected timeout_error) /\
  err_code timeout_error = Some "Timeout" /\ err_statusCode timeout_error = Some 504%Z /\
  now b2 = now b + call_delay E message /\
  callQueue b2 !! next_mid b = Some (mkPending p (next_timer b)).
Proof.
  rewrite call_eq. simpl. split; [apply lookup_insert_eq |].
  unfold fire_timer. simpl. rewrite lookup_insert_eq. simpl.
  unfold settle. simpl. rewrite lookup_insert_eq. simpl.
  split; [apply lookup_insert_eq |]. split; [reflexivity |]. split; [reflexivity |].
  split; [lia | apply lookup_insert_eq].
Qed.

(** The same on the first call of a fresh worker with the default
    10 s timeout: after the timer fires, ["0:1"] is still pending. *)
Example call_timeout_keeps_entry_fresh :
  let b0 := mkBridge ∅ 0 0 ∅ 0 ∅ [] in
  let b1 := fst (call 10000 (mkCallMessage None "listMessages") b0) in
  let b2 := fire_timer 0 b1 in
  promises b2 !! 1 = Some (PRejected timeout_error) /\ now b2 = 10000 /\
  callQueue b2 !! "0:1"%string = Some (mkPending 1 0).
Proof. vm_compute. repeat split; reflexivity. Qed.

(** Claim C6.  Two calls issued one after the other, with distinct mids,
    answered by their own responses: delivering the responses in either
    order gives the same state, in which each call's promise holds the
    outcome carried by its own response. *)
Theorem concurrent_calls_independent (E : nat) (msgA msgB : CallMessage)
    (rA rB : InMsg) (b b1 b2 : Bridge) (pA pB : nat) :
  call E msgA b = (b1, pA) ->
  call E msgB b1 = (b2, pB) ->
  next_mid b <> next_mid b1 ->
  in_cmd rA = Some "resp" -> in_mid rA = Some (next_mid b) ->
  in_cmd rB = Some "resp" -> in_mid rB = Some (next_mid b1) ->
  on_message rB (on_message rA b2) = on_message rA (on_message rB b2) /\
  promises (on_message rB (on_message rA b2)) !! pA = Some (response_outcome rA) /\
  promises (on_message rB (on_message rA b2)) !! pB = Some (response_outcome rB).
Proof.
  intros HA HB Hne HcA HmA HcB HmB.
  rewrite call_eq in HA. injection HA as <- <-.
  rewrite call_eq in HB. injection HB as <- <-. simpl in *.
  set (midA := next_mid b) in *. set (midB := next_mid (mkBridge _ _ _ _ _ _ _)) in *.
  assert (HtA : str_truthy (Some midA) = true) by apply make_mid_nonempty.
  assert (HtB : str_truthy (Some midB) = true) by apply make_mid_nonempty.
  assert (Hp : S (mids b) <> S (S (mids b))) by lia.
  assert (Ht : next_timer b <> S (next_timer b)) by lia.
  (* A first, then B *)
  erewrite (on_message_resp rA _ midA (mkPending (S (mids b)) (next_timer b)));
    [| exact HcA | exact HmA | exact HtA
     | simpl; rewrite lookup_insert_ne by congruence; apply lookup_insert_eq
     | simpl; rewrite lookup_insert_ne by lia; apply lookup_insert_eq].
  erewrite (on_message_resp rB _ midB (mkPending (S (S (mids b))) (S (next_timer b))));
    [| exact HcB | exact HmB | exact HtB
     | simpl; rewrite lookup_delete_ne by congruence; apply lookup_insert_eq
     | simpl; rewrite lookup_insert_ne by lia; apply lookup_insert_eq].
  (* B first, then A *)
  erewrite (on_message_resp rB _ midB (mkPending (S (S (mids b))) (S (next_timer b))));
    [| exact HcB | exact HmB | exact HtB
     | simpl; apply lookup_insert_eq
     | simpl; apply lookup_insert_eq].
  erewrite (on_message_resp rA _ midA (mkPending (S (mids b)) (next_timer b)));
    [| exact HcA | exact HmA | exact HtA
     | simpl; rewrite lookup_delete_ne by congruence;
       rewrite lookup_insert_ne by congruence; apply lookup_insert_eq
     | simpl; rewrite lookup_insert_ne by lia;
       rewrite lookup_insert_ne by lia; apply lookup_insert_eq].
  simpl. split; [| split].
  - f_equal.
    + apply delete_delete.
    + apply delete_delete.
    + apply insert_insert_ne. lia.
  - rewrite lookup_insert_ne by lia. apply lookup_insert_eq.
  - apply lookup_insert_eq.
Qed.

Lemma concurrent_calls_independent_witness :
  let b0 := mkBridge ∅ 0 5 ∅ 0 ∅ [] in
  let mA := mkCallMessage None "A" in
  let mB := mkCallMessage (Some 500) "B" in
  let rA := mkInMsg (Some "resp"%string) (Some "5:1"%string) None None None (Some "payload-A"%string) in
  let rB := mkInMsg (Some "resp"%string) (Some "5:2"%string) (Some "boom"%string)
                    (Some "EFAIL"%string) (Some 502%Z) None in
  let b1 := fst (call 10000 mA b0) in
  let b2 := fst (call 10000 mB b1) in
  next_mid b0 <> next_mid b1 /\
  (on_message rB (on_message rA b2) = on_message rA (on_message rB b2) /\
   promises (on_message rB (on_message rA b2)) !! 1 = Some (response_outcome rA) /\
   promises (on_message rB (on_message rA b2)) !! 2 = Some (response_outcome rB)).
Proof.
  intros b0 mA mB rA rB b1 b2. split; [vm_compute; discriminate |].
  apply (concurrent_calls_independent 10000 mA mB rA rB b0 b1 b2 1 2);
    [reflexivity | reflexivity | vm_compute; discriminate
    | reflexivity | reflexivity | reflexivity | reflexivity].
Defined.

(** Claim C10.  A ['resp'] message whose mid is absent or matches no
    pending call leaves the whole worker state unchanged: the pending
    table, every promise and the posted messages. *)
Theorem unmatched_resp_is_ignored (m : InMsg) (b : Bridge) :
  in_cmd m = Some "resp" ->
  (in_mid m = None \/ exists mid, in_mid m = Some mid /\ callQueue b !! mid = None) ->
  on_message m b = b.
Proof.
  intros Hc Hm. unfold on_message, resp_entry.
  rewrite Hc, bool_decide_true by reflexivity.
  assert (Hr : match truthy_str (in_mid m) with
               | Some mid => match callQueue b !! mid with
                             | Some pc => Some (mid, pc)
                             | None => None
                             end
               | None => None
               end = None).
  { destruct Hm as [-> | [mid [-> Hq]]]; [reflexivity |].
    unfold truthy_str. destruct (str_truthy (Some mid)); [rewrite Hq |]; reflexivity. }
  rewrite Hr. rewrite bool_decide_false by discriminate. reflexivity.
Qed.

Lemma unmatched_resp_is_ignored_witness :
  let b := fst (call 10000 (mkCallMessage None "A") (mkBridge ∅ 0 5 ∅ 0 ∅ [])) in
  let m := mkInMsg (Some "resp"%string) (Some "5:9"%string) None None None (Some "late"%string) in
  (in_cmd m = Some "resp" /\
   (in_mid m = None \/ exists mid, in_mid m = Some mid /\ callQueue b !! mid = None)) /\
  on_message m b = b.
Proof.
  intros b m. split.
  - split; [reflexivity |]. right. exists "5:9"%string. split; [reflexivity |]. vm_compute. reflexivity.
  - apply unmatched_resp_is_ignored; [reflexivity |].
    right. exists "5:9"%string. split; [reflexivity |]. vm_compute. reflexivity.
Defined.

End RpcBridgeFacts.

(* ================================================================== *)
(** * Further properties of the worker *)

(* ------------------------------------------------------------------ *)
(** ** onAuth *)

(** [onAuth] writes the cache only when it succeeds, and then only the
    session's entry, with a handle for the authenticated user name; every
    failure leaves the cache as it was. *)
Theorem onAuth_cache_effect (env : AuthEnv) (cache : AccountCache) (auth : AuthData)
    (session : Session) :
  let '(cache', _, r) := onAuth env cache auth session in
  match r with
  | Ok _ => exists secret,
      ae_getSecret env = Ok secret /\
      cache' = <[sess_id session := mkAccount (auth_username auth) secret]> cache
  | Err _ => cache' = cache
  end.
Proof.
  unfold onAuth. destruct (eeAuthEnabled session); simpl; [| reflexivity].
  destruct (ae_smtpServerPassword env) as [pw | e]; [| reflexivity].
  case_bool_decide; [reflexivity |].
  destruct (ae_getSecret env) as [secret | e] eqn:Hs; [| reflexivity].
  destruct (ae_load env (auth_username auth)) as [be | [acct |]].
  - case_bool_decide; reflexivity.
  - exists secret. split; reflexivity.
  - reflexivity.
Qed.

(** A password that differs from the configured one, or no configured
    password at all, fails with the generic error before any account is
    looked up. *)
Theorem onAuth_wrong_password (env : AuthEnv) (cache : AccountCache) (auth : AuthData)
    (session : Session) (pw : option string) :
  eeAuthEnabled session = true ->
  ae_smtpServerPassword env = Ok pw ->
  pw <> Some (auth_password auth) ->
  onAuth env cache auth session = (cache, [], Err err_auth_failed).
Proof.
  intros Ha Hp Hne. unfold onAuth. rewrite Ha, Hp. simpl.
  rewrite bool_decide_true by congruence. reflexivity.
Qed.

Lemma onAuth_wrong_password_witness :
  let env := mkAuthEnv (Ok None) (Ok None) (fun u => AuthLoadReturns (Some u)) in
  let session := mkSession 3 true "" [] in
  let auth := mkAuthData "acct1" "guess" in
  eeAuthEnabled session = true /\ ae_smtpServerPassword env = Ok None /\
  None <> Some (auth_password auth) /\
  onAuth env ∅ auth session = (∅, [], Err err_auth_failed).
Proof.
  intros env session auth. split; [reflexivity |]. split; [reflexivity |].
  split; [discriminate |].
  apply (onAuth_wrong_password env ∅ auth session None); [reflexivity | reflexivity | discriminate].
Defined.

(** With the right password, an unknown account (a load error whose
    [output.statusCode] is 404) gives exactly the error a wrong password
    gives, and is not logged; any other load error is logged and gives
    the same message tagged with status 454. *)
Theorem onAuth_load_failure (env : AuthEnv) (cache : AccountCache) (auth : AuthData)
    (session : Session) (secret : option string) (be : BoomError) :
  eeAuthEnabled session = true ->
  ae_smtpServerPassword env = Ok (Some (auth_password auth)) ->
  ae_getSecret env = Ok secret ->
  ae_load env (auth_username auth) = AuthLoadThrows be ->
  onAuth env cache auth session =
  if bool_decide (boom_output_statusCode be = Some 404%Z)
  then (cache, [], Err err_auth_failed)
  else (cache, [AuthLogError "Failed to load account data" (auth_username auth) (boom_err be)],
        Err err_auth_unavailable).
Proof.
  intros Ha Hp Hs Hl. unfold onAuth. rewrite Ha, Hp. simpl.
  rewrite bool_decide_false by congruence. rewrite Hs, Hl.
  destruct (decide (boom_output_statusCode be = Some 404%Z)) as [E | E].
  - rewrite bool_decide_false by congruence. rewrite bool_decide_true by exact E. reflexivity.
  - rewrite bool_decide_true by exact E. rewrite bool_decide_false by exact E. reflexivity.
Qed.

Lemma onAuth_load_failure_witness :
  let be := mkBoomError (new_Error "Account record was not found") (Some 404%Z) in
  let env := mkAuthEnv (Ok (Some "pw"%string)) (Ok None) (fun _ => AuthLoadThrows be) in
  let session := mkSession 3 true "" [] in
  let auth := mkAuthData "nobody" "pw" in
  eeAuthEnabled session = true /\ ae_smtpServerPassword env = Ok (Some (auth_password auth)) /\
  ae_getSecret env = Ok None /\ ae_load env (auth_username auth) = AuthLoadThrows be /\
  onAuth env ∅ auth session =
  if bool_decide (boom_output_statusCode be = Some 404%Z)
  then (∅, [], Err err_auth_failed)
  else (∅, [AuthLogError "Failed to load account data" (auth_username auth) (boom_err be)],
        Err err_auth_unavailable).
Proof.
  intros be env session auth. do 4 (split; [reflexivity |]).
  apply (onAuth_load_failure env ∅ auth session None be); reflexivity.
Defined.

(** With the right password and a load that returns data, [onAuth]
    returns the loaded [account] as the user and caches a handle for the
    user name on the session, so a later [checkAccountData] on that
    session (authentication required) returns that handle. *)
Theorem onAuth_success_then_check (env : AuthEnv) (cenv : Env) (cache : AccountCache)
    (auth : AuthData) (session : Session) (secret : option string) (account : string)
    (meta : MessageMeta) :
  eeAuthEnabled session = true ->
  ae_smtpServerPassword env = Ok (Some (auth_password auth)) ->
  ae_getSecret env = Ok secret ->
  ae_load env (auth_username auth) = AuthLoadReturns (Some account) ->
  let handle := mkAccount (auth_username auth) secret in
  onAuth env cache auth session = (<[sess_id session := handle]> cache, [], Ok account) /\
  checkAccountData cenv (<[sess_id session := handle]> cache) session meta =
    (<[sess_id session := handle]> cache, [], Ok handle).
Proof.
  intros Ha Hp Hs Hl handle. split.
  - unfold onAuth. rewrite Ha, Hp. simpl. rewrite bool_decide_false by congruence.
    rewrite Hs, Hl. reflexivity.
  - unfold checkAccountData. rewrite Ha. unfold check_tail. rewrite Ha, lookup_insert_eq.
    reflexivity.
Qed.

Lemma onAuth_success_then_check_witness :
  let env := mkAuthEnv (Ok (Some "pw"%string)) (Ok (Some "k"%string))
                       (fun _ => AuthLoadReturns (Some "acct1"%string)) in
  let cenv := mkEnv (Ok None) (fun _ => LoadReturns None) in
  let session := mkSession 3 true "" [] in
  let auth := mkAuthData "acct1" "pw" in
  let handle := mkAccount (auth_username auth) (Some "k"%string) in
  (eeAuthEnabled session = true /\ ae_smtpServerPassword env = Ok (Some (auth_password auth)) /\
   ae_getSecret env = Ok (Some "k"%string) /\
   ae_load env (auth_username auth) = AuthLoadReturns (Some "acct1"%string)) /\
  (onAuth env ∅ auth session = (<[sess_id session := handle]> ∅, [], Ok "acct1"%string) /\
   checkAccountData cenv (<[sess_id session := handle]> ∅) session (mkMeta (Some "other"%string)) =
    (<[sess_id session := handle]> ∅, [], Ok handle)).
Proof.
  intros env cenv session auth handle. split; [repeat split |].
  apply (onAuth_success_then_check env cenv ∅ auth session (Some "k"%string) "acct1");
    reflexivity.
Defined.

(* ------------------------------------------------------------------ *)
(** ** onConnect failure paths *)

Lemma onConnect_full_nodup (ar pr : Result bool) (opts : ServerOptions) (session : Session) :
  NoDup (disabledCommands opts) ->
  NoDup (disabledCommands (fst (fst (onConnect_full ar pr opts session)))).
Proof.
  intros Hnd. destruct ar as [a | e]; simpl; [| exact Hnd].
  destruct pr; simpl; apply reconcile_spec; exact Hnd.
Qed.

Lemma onConnect_full_run_nodup (setups : list (Result bool * Result bool * Session))
    (opts : ServerOptions) :
  NoDup (disabledCommands opts) -> NoDup (disabledCommands (onConnect_full_run setups opts)).
Proof.
  revert opts. induction setups as [| [[ar pr] sess] setups IH]; intros opts Hnd; simpl.
  - exact Hnd.
  - apply IH. apply onConnect_full_nodup. exact Hnd.
Qed.

(** Starting from the list [init] sets up, after any sequence of
    connection setups in which either settings read may fail, the next
    setup leaves [disabledCommands] free of duplicates.  When its
    authentication read succeeds with [a], [AUTH] is in the list exactly
    when [a] is false and the session is stamped with [a]; when that read
    fails, the options and the session are unchanged and the callback
    gets the error; when only the proxy read fails, [useProxy] keeps its
    value and the callback gets that error; when both succeed, the
    callback gets no error. *)
Theorem onConnect_full_run_invariant (setups : list (Result bool * Result bool * Session))
    (ar pr : Result bool) (proxy0 : bool) (session : Session) :
  let opts := onConnect_full_run setups (mkServerOptions initial_disabledCommands proxy0) in
  let '(opts', session', cbErr) := onConnect_full ar pr opts session in
  NoDup (disabledCommands opts') /\
  (forall a, ar = Ok a ->
     ("AUTH" ∈ disabledCommands opts' <-> a = false) /\ eeAuthEnabled session' = a /\
     (forall e, pr = Err e -> useProxy opts' = useProxy opts /\ cbErr = Some e) /\
     (forall p, pr = Ok p -> useProxy opts' = p /\ cbErr = None)) /\
  (forall e, ar = Err e -> opts' = opts /\ session' = session /\ cbErr = Some e).
Proof.
  intros opts.
  assert (Hnd : NoDup (disabledCommands opts)).
  { apply onConnect_full_run_nodup. apply NoDup_singleton. }
  destruct ar as [a | e]; simpl.
  - destruct (reconcile_spec a (disabledCommands opts) Hnd) as [Hnd' Hauth].
    destruct pr as [p | e]; simpl.
    + split; [exact Hnd' |]. split; [| discriminate].
      intros a' Ha'. injection Ha' as <-.
      split; [exact Hauth |]. split; [reflexivity |].
      split; [discriminate | intros p' Hp'; injection Hp' as <-; auto].
    + split; [exact Hnd' |]. split; [| discriminate].
      intros a' Ha'. injection Ha' as <-.
      split; [exact Hauth |]. split; [reflexivity |].
      split; [intros e' He'; injection He' as <-; auto | discriminate].
  - split; [exact Hnd |]. split; [discriminate |].
    intros e' He'. injection He' as <-. auto.
Qed.

(* ------------------------------------------------------------------ *)
(** ** onData *)

Section OnDataFacts.

Context {Chunk : Type}.
Variable chunk_length : Chunk -> N.

(** Whatever stream smtp-server hands in, including one it flagged as
    oversize, the first thing [onData] does is account resolution: its
    size-exceeded branch is never taken. *)
Theorem onData_always_resolves_account (env : Env)
    (queue : Account -> Payload -> Result (QueueResult)) (cache : AccountCache)
    (rawStream : Stream Chunk) (session : Session) :
  head (snd (onData env queue cache rawStream session)) = Some ECheckAccountData.
Proof.
  destruct rawStream as [m f]. unfold onData. rewrite processMessage_eq. simpl.
  destruct (checkAccountData env cache session _) as [[c' logs] [acc | e]]; simpl; [| reflexivity].
  destruct (queue acc _); reflexivity.
Qed.

(** Every message [onData] queues carries the session's envelope and the
    pipeline's output as [raw]: the received header block without any
    [x-ee-account] line, and the received body. *)
Theorem onData_queued_payload (env : Env)
    (queue : Account -> Payload -> Result (QueueResult)) (cache : AccountCache)
    (m : Message Chunk) (f : option bool) (session : Session) (acc : Account) (p : Payload) :
  In (EQueueMessage acc p) (snd (onData env queue cache (mkStream m f) session)) ->
  env_from p = sess_from session /\ env_to p = sess_to session /\
  msg_headers (raw p) = headers_remove (msg_headers m) "x-ee-account" /\
  Forall (fun l => hl_key l <> "x-ee-account") (msg_headers (raw p)) /\
  msg_body (raw p) = msg_body m.
Proof.
  unfold onData. rewrite processMessage_eq. simpl.
  destruct (checkAccountData env cache session _) as [[c' logs] [acc' | e]]; simpl;
    [destruct (queue acc' _); simpl |];
    intros H; repeat match type of H with _ \/ _ => destruct H as [H | H] end;
    try discriminate; try contradiction;
    injection H as <- <-; simpl;
    (split; [reflexivity | split; [reflexivity | split; [reflexivity | split;
      [apply headers_remove_no_key | reflexivity]]]]).
Qed.

(** When account resolution fails, [onData] passes that error to the
    callback and never calls [queueMessage]; the cache is whatever
    resolution left. *)
Theorem onData_resolution_failure (env : Env)
    (queue : Account -> Payload -> Result (QueueResult)) (cache cache' : AccountCache)
    (m : Message Chunk) (f : option bool) (session : Session) (logs : list LogEntry) (e : Error) :
  checkAccountData env cache session (snd (processMessage (mkStream m f) empty_meta)) =
    (cache', logs, Err e) ->
  onData env queue cache (mkStream m f) session = (cache', [ECheckAccountData; ECallback (Err e)]).
Proof.
  intros H. unfold onData. destruct (processMessage (mkStream m f) empty_meta) as [st meta] eqn:Hp.
  simpl in H. rewrite H.
  assert (Hst : st_sizeExceeded st = None) by (rewrite processMessage_eq in Hp; injection Hp as <- _; reflexivity).
  rewrite Hst. reflexivity.
Qed.

(** Once the account is resolved, a queueing failure emits the
    [smtpSubmitFail] metric and passes the error on; a success emits
    [smtpSubmitQueued] and accepts with a text naming the queue id and
    the send time. *)
Theorem onData_queue_outcome (env : Env)
    (queue : Account -> Payload -> Result (QueueResult)) (cache cache' : AccountCache)
    (m : Message Chunk) (f : option bool) (session : Session) (logs : list LogEntry)
    (acc : Account) :
  checkAccountData env cache session (snd (processMessage (mkStream m f) empty_meta)) =
    (cache', logs, Ok acc) ->
  let p := mkPayload (sess_from session) (sess_to session)
                     (st_message (fst (processMessage (mkStream m f) empty_meta))) in
  onData env queue cache (mkStream m f) session =
    (cache', ECheckAccountData :: EQueueMessage acc p ::
             match queue acc p with
             | Ok res => [EMetrics "smtpSubmitQueued";
                          ECallback (Ok ("Message queued for delivery as " ++ qr_queueId res
                                         ++ " (" ++ qr_sendAt res ++ ")")%string)]
             | Err e => [EMetrics "smtpSubmitFail"; ECallback (Err e)]
             end).
Proof.
  intros H p. unfold onData. unfold p. clear p.
  destruct (processMessage (mkStream m f) empty_meta) as [st meta] eqn:Hp.
  simpl in H |- *. rewrite H.
  assert (Hst : st_sizeExceeded st = None) by (rewrite processMessage_eq in Hp; injection Hp as <- _; reflexivity).
  rewrite Hst. simpl. destruct (queue acc _); reflexivity.
Qed.

End OnDataFacts.

Lemma onData_resolution_failure_witness :
  let m := mkMessage [mkHeaderLine "subject" "hi" "Subject: hi"] ["body"%string] in
  let env := mkEnv (Ok None) (fun _ => LoadReturns None) in
  let session := mkSession 4 false "a@example.com" ["b@example.com"%string] in
  let queue := fun (_ : Account) (_ : Payload (Chunk := string)) =>
                 Ok (mkQueueResult "" "" "") in
  checkAccountData env ∅ session (snd (processMessage (mkStream m None) empty_meta)) =
    (∅, [], Err err_no_sender) /\
  onData env queue ∅ (mkStream m None) session = (∅, [ECheckAccountData; ECallback (Err err_no_sender)]).
Proof.
  intros m env session queue. split; [reflexivity |].
  apply onData_resolution_failure with (logs := []). reflexivity.
Defined.

Lemma onData_queue_outcome_witness :
  let m := mkMessage [mkHeaderLine "x-ee-account" "acct1" "X-EE-Account: acct1"] ["body"%string] in
  let env := mkEnv (Ok None) (fun _ => LoadReturns (Some "acct1"%string)) in
  let session := mkSession 4 false "a@example.com" ["b@example.com"%string] in
  let acc := mkAccount "acct1" None in
  let queue := fun (_ : Account) (_ : Payload (Chunk := string)) =>
                 Err (new_Error "Queue unavailable") in
  let p := mkPayload (sess_from session) (sess_to session)
                     (st_message (fst (processMessage (mkStream m None) empty_meta))) in
  checkAccountData env ∅ session (snd (processMessage (mkStream m None) empty_meta)) =
    ({[4 := acc]}, [LogInfo "Resolved requested account" "acct1"], Ok acc) /\
  onData env queue ∅ (mkStream m None) session =
    ({[4 := acc]}, ECheckAccountData :: EQueueMessage acc p ::
             match queue acc p with
             | Ok res => [EMetrics "smtpSubmitQueued";
                          ECallback (Ok ("Message queued for delivery as " ++ qr_queueId res
                                         ++ " (" ++ qr_sendAt res ++ ")")%string)]
             | Err e => [EMetrics "smtpSubmitFail"; ECallback (Err e)]
             end).
Proof.
  intros m env session acc queue p. split; [reflexivity |].
  apply onData_queue_outcome with (logs := [LogInfo "Resolved requested account" "acct1"]).
  reflexivity.
Defined.

(* ------------------------------------------------------------------ *)
(** ** Pipeline and account resolution across messages *)

(** A message with no [x-ee-account] line passes the pipeline unchanged,
    and [meta] is left as it was. *)
Theorem processMessage_without_directive {Chunk : Type} (m : Message Chunk) (f : option bool)
    (meta : MessageMeta) :
  Forall (fun l => hl_key l <> "x-ee-account") (msg_headers m) ->
  processMessage (mkStream m f) meta = (mkStream m None, meta).
Proof.
  intros Hf. rewrite processMessage_eq.
  destruct m as [hs body]. simpl in *.
  assert (Hr : headers_remove hs "x-ee-account" = hs /\ getFirst hs "x-ee-account" = "").
  { induction hs as [| l ls IH]; [split; reflexivity |].
    apply Forall_cons in Hf as [Hl Hls]. apply String.eqb_neq in Hl.
    destruct (IH Hls) as [IH1 IH2]. unfold headers_remove in *. simpl. rewrite Hl. simpl.
    split; [f_equal; exact IH1 | exact IH2]. }
  destruct Hr as [Hr Hg].
  rewrite Hr, Hg. reflexivity.
Qed.

Lemma processMessage_without_directive_witness :
  let m := mkMessage [mkHeaderLine "from" "a@example.com" "From: a@example.com";
                      mkHeaderLine "x-ee-other" "x" "X-EE-Other: x"] ["body"%string] in
  Forall (fun l => hl_key l <> "x-ee-account") (msg_headers m) /\
  processMessage (mkStream m (Some true)) empty_meta = (mkStream m None, empty_meta).
Proof.
  intros m. assert (H : Forall (fun l => hl_key l <> "x-ee-account") (msg_headers m)).
  { repeat constructor; discriminate. }
  split; [exact H | apply processMessage_without_directive; exact H].
Defined.

(** On a connection without authentication, a directive for [a] and then
    one for [b] (both loads returning data), followed by a message with no
    directive: the third message gets the handle for [b], the one the
    latest directive cached, without any further load. *)
Theorem latest_directive_is_reused (env env3 : Env) (cache : AccountCache) (session : Session)
    (a b : string) (secret : option string) (da db : string) :
  eeAuthEnabled session = false ->
  a <> "" -> b <> "" ->
  env_getSecret env = Ok secret ->
  env_load env a = LoadReturns (Some da) ->
  env_load env b = LoadReturns (Some db) ->
  let '(c1, _, r1) := checkAccountData env cache session (mkMeta (Some a)) in
  let '(c2, _, r2) := checkAccountData env c1 session (mkMeta (Some b)) in
  r1 = Ok (mkAccount a secret) /\ r2 = Ok (mkAccount b secret) /\
  checkAccountData env3 c2 session empty_meta = (c2, [], Ok (mkAccount b secret)).
Proof.
  intros Hauth Ha Hb Hs Hla Hlb.
  assert (Ta : str_truthy (Some a) = true) by (apply str_truthy_Some; exact Ha).
  assert (Tb : str_truthy (Some b) = true) by (apply str_truthy_Some; exact Hb).
  unfold checkAccountData at 1, truthy_str at 1. simpl requestedAccount. rewrite Hauth, Ta, Hs, Hla.
  unfold checkAccountData at 1, truthy_str at 1. simpl requestedAccount. rewrite Hauth, Tb, Hs, Hlb.
  unfold check_tail. simpl requestedAccount. rewrite Hauth, Ta, Tb. simpl.
  split; [reflexivity | split; [reflexivity |]].
  unfold checkAccountData, check_tail. rewrite Hauth. simpl. rewrite lookup_insert_eq. reflexivity.
Qed.

Lemma latest_directive_is_reused_witness :
  let env := mkEnv (Ok (Some "k"%string)) (fun acct => LoadReturns (Some acct)) in
  let env3 := mkEnv (Err (new_Error "redis down")) (fun _ => LoadThrows (new_Error "redis down")) in
  let session := mkSession 5 false "" [] in
  (eeAuthEnabled session = false /\ "acct1" <> "" /\ "acct2" <> "") /\
  let '(c1, _, r1) := checkAccountData env ∅ session (mkMeta (Some "acct1"%string)) in
  let '(c2, _, r2) := checkAccountData env c1 session (mkMeta (Some "acct2"%string)) in
  r1 = Ok (mkAccount "acct1" (Some "k"%string)) /\ r2 = Ok (mkAccount "acct2" (Some "k"%string)) /\
  checkAccountData env3 c2 session empty_meta = (c2, [], Ok (mkAccount "acct2" (Some "k"%string))).
Proof.
  intros env env3 session. split; [split; [reflexivity | split; discriminate] |].
  apply (latest_directive_is_reused env env3 ∅ session "acct1" "acct2" (Some "k"%string)
           "acct1" "acct2"); first [reflexivity | discriminate].
Defined.

(** With a directive and authentication not required, a failing
    [getSecret()] makes [checkAccountData] fail with that error before any
    load, leaving the cache unchanged. *)
Theorem checkAccountData_secret_failure (env : Env) (cache : AccountCache) (session : Session)
    (req : string) (e : Error) :
  eeAuthEnabled session = false -> req <> "" ->
  env_getSecret env = Err e ->
  checkAccountData env cache session (mkMeta (Some req)) = (cache, [], Err e).
Proof.
  intros Hauth Hr Hs. unfold checkAccountData, truthy_str. simpl requestedAccount. rewrite Hauth.
  assert (T : str_truthy (Some req) = true) by (apply str_truthy_Some; exact Hr).
  rewrite T, Hs. reflexivity.
Qed.

Lemma checkAccountData_secret_failure_witness :
  let env := mkEnv (Err (new_Error "redis down")) (fun _ => LoadReturns (Some "x"%string)) in
  let session := mkSession 6 false "" [] in
  eeAuthEnabled session = false /\ "acct1" <> "" /\ env_getSecret env = Err (new_Error "redis down") /\
  checkAccountData env ∅ session (mkMeta (Some "acct1"%string)) = (∅, [], Err (new_Error "redis down")).
Proof.
  intros env session. split; [reflexivity | split; [discriminate | split; [reflexivity |]]].
  apply checkAccountData_secret_failure; first [reflexivity | discriminate].
Defined.

(* ------------------------------------------------------------------ *)
(** ** Request/response bridge: ids, settling once, inbound calls *)

Module RpcBridgeMore.
Import RpcBridge RpcBridgeFacts.

Lemma pretty_N_char_not_colon (x : N) : pretty_N_char x <> ":"%char.
Proof. unfold pretty_N_char. repeat case_match; discriminate. Qed.

Lemma pretty_N_go_no_colon (x : N) (s : string) :
  Forall (fun c => c <> ":"%char) (String.list_ascii_of_string s) ->
  Forall (fun c => c <> ":"%char) (String.list_ascii_of_string (pretty_N_go x s)).
Proof.
  revert s. induction (N.lt_wf_0 x) as [x _ IH]; intros s Hs.
  destruct (decide (x = 0)%N) as [-> | Hx]; [rewrite pretty_N_go_0; exact Hs |].
  rewrite pretty_N_go_step by lia. apply IH; [apply N.div_lt; lia |].
  simpl. constructor; [apply pretty_N_char_not_colon | exact Hs].
Qed.

Lemma pretty_nat_no_colon (n : nat) :
  Forall (fun c => c <> ":"%char) (String.list_ascii_of_string (pretty n)).
Proof.
  unfold pretty, pretty_nat, pretty, pretty_N. case_decide.
  - repeat constructor. discriminate.
  - apply pretty_N_go_no_colon. constructor.
Qed.

Lemma colon_split_inj (a b c d : string) :
  Forall (fun ch => ch <> ":"%char) (String.list_ascii_of_string a) ->
  Forall (fun ch => ch <> ":"%char) (String.list_ascii_of_string c) ->
  (a ++ ":" ++ b = c ++ ":" ++ d)%string -> a = c /\ b = d.
Proof.
  revert c. induction a as [| x a IH]; intros c Ha Hc; destruct c as [| y c]; simpl.
  - intros H. injection H. intros E. split; [reflexivity | exact E].
  - intros H. injection H. intros _ E. apply Forall_cons in Hc as [Hy _]. congruence.
  - intros H. injection H. intros _ E. apply Forall_cons in Ha as [Hx _]. congruence.
  - intros H. injection H. intros H' <-. apply Forall_cons in Ha as [_ Ha].
    apply Forall_cons in Hc as [_ Hc]. destruct (IH c Ha Hc H') as [-> ->].
    split; reflexivity.
Qed.

(** Correlation ids are unique: [`${Date.now()}:${++mids}`] determines
    both the clock value and the counter, so calls issued with different
    counter values never share an id, even within one millisecond; in
    particular two successive calls get different ids. *)
Theorem mid_unique (t t' n n' : nat) (E : nat) (msg : CallMessage) (b : Bridge) :
  (make_mid t n = make_mid t' n' -> t = t' /\ n = n') /\
  next_mid (fst (call E msg b)) <> next_mid b.
Proof.
  assert (Hinj : forall t t' n n', make_mid t n = make_mid t' n' -> t = t' /\ n = n').
  { clear. intros t t' n n' H. unfold make_mid in H.
    apply colon_split_inj in H as [H1 H2]; [| apply pretty_nat_no_colon | apply pretty_nat_no_colon].
    apply (inj pretty) in H1. apply (inj pretty) in H2. split; assumption. }
  split; [apply Hinj |].
  rewrite call_eq. unfold next_mid. simpl. intros H. apply Hinj in H as [_ H]. lia.
Qed.

(** A response to the call just issued settles that call's promise. *)
Lemma call_response_settles (E : nat) (msg : CallMessage) (b : Bridge) (r : InMsg) :
  in_cmd r = Some "resp" -> in_mid r = Some (next_mid b) ->
  promises (on_message r (fst (call E msg b))) !! S (mids b) = Some (response_outcome r).
Proof.
  intros Hcmd Hmid. rewrite call_eq.
  erewrite (on_message_resp r _ (next_mid b) (mkPending (S (mids b)) (next_timer b)));
    [| exact Hcmd | exact Hmid | apply make_mid_nonempty
     | apply lookup_insert_eq | apply lookup_insert_eq].
  apply lookup_insert_eq.
Qed.

(** A call answered by its response is settled once: the promise holds the
    response's outcome and the call's timer is gone, so its firing (the
    [setTimeout] callback) cannot change anything afterwards. *)
Theorem response_then_timer (E : nat) (msg : CallMessage) (b b1 : Bridge) (p : nat) (r : InMsg) :
  call E msg b = (b1, p) ->
  in_cmd r = Some "resp" -> in_mid r = Some (next_mid b) ->
  promises (on_message r b1) !! p = Some (response_outcome r) /\
  callQueue (on_message r b1) !! next_mid b = None /\
  fire_timer (next_timer b) (on_message r b1) = on_message r b1.
Proof.
  intros Hc Hcmd Hmid. rewrite call_eq in Hc. injection Hc as <- <-.
  erewrite (on_message_resp r _ (next_mid b) (mkPending (S (mids b)) (next_timer b)));
    [| exact Hcmd | exact Hmid | apply make_mid_nonempty
     | apply lookup_insert_eq | apply lookup_insert_eq].
  simpl. split; [apply lookup_insert_eq |]. split; [apply lookup_delete_eq |].
  unfold fire_timer. simpl. rewrite lookup_delete_eq. reflexivity.
Qed.

Lemma response_then_timer_witness :
  let b := mkBridge ∅ 0 7 ∅ 0 ∅ [] in
  let msg := mkCallMessage None "ping" in
  let r := mkInMsg (Some "resp"%string) (Some "7:1"%string) None None None (Some "pong"%string) in
  (call 10000 msg b = (fst (call 10000 msg b), 1) /\ in_cmd r = Some "resp" /\
   in_mid r = Some (next_mid b)) /\
  (promises (on_message r (fst (call 10000 msg b))) !! 1 = Some (response_outcome r) /\
   callQueue (on_message r (fst (call 10000 msg b))) !! next_mid b = None /\
   fire_timer (next_timer b) (on_message r (fst (call 10000 msg b))) = on_message r (fst (call 10000 msg b))).
Proof.
  intros b msg r. split; [split; [reflexivity | split; reflexivity] |].
  apply (response_then_timer 10000 msg b (fst (call 10000 msg b)) 1 r); reflexivity.
Defined.

(** A response arriving after its call timed out leaves the promise
    rejected with the timeout error, and its only effect on the bridge
    state is the removal of the call's stale [callQueue] entry: promises,
    timers, posted messages, counters and clock are all unchanged. *)
Theorem late_response_after_timeout (E : nat) (msg : CallMessage) (b b1 : Bridge) (p : nat)
    (r : InMsg) :
  call E msg b = (b1, p) ->
  in_cmd r = Some "resp" -> in_mid r = Some (next_mid b) ->
  let b2 := fire_timer (next_timer b) b1 in
  on_message r b2 = set_callQueue (delete (next_mid b) (callQueue b2)) b2 /\
  promises b2 !! p = Some (PRejected timeout_error).
Proof.
  intros Hc Hcmd Hmid. rewrite call_eq in Hc. injection Hc as <- <-. intros b2.
  set (pc := mkPending (S (mids b)) (next_timer b)).
  set (tm := mkTimer (now b + call_delay E msg) (S (mids b))).
  assert (E2 : b2 = mkBridge (<[next_mid b := pc]> (callQueue b)) (S (mids b))
                             (Nat.max (now b) (now b + call_delay E msg))
                             (delete (next_timer b) (<[next_timer b := tm]> (timers b)))
                             (S (next_timer b))
                             (<[S (mids b) := PRejected timeout_error]>
                                (<[S (mids b) := PPending]> (promises b)))
                             (posted b ++ [OutCall (next_mid b) msg])).
  { unfold b2, fire_timer. simpl. rewrite lookup_insert_eq. unfold settle. simpl.
    rewrite lookup_insert_eq. reflexivity. }
  rewrite E2. clear b2 E2.
  assert (Ht : str_truthy (Some (next_mid b)) = true) by apply make_mid_nonempty.
  unfold on_message, resp_entry. rewrite Hcmd, bool_decide_true by reflexivity.
  rewrite Hmid. unfold truthy_str. rewrite Ht. simpl. rewrite lookup_insert_eq.
  unfold settle, clearTimeout, set_callQueue, set_timers. simpl. rewrite !lookup_insert_eq.
  rewrite delete_delete_eq. split; reflexivity.
Qed.

Lemma late_response_after_timeout_witness :
  let b := mkBridge ∅ 0 7 ∅ 0 ∅ [] in
  let msg := mkCallMessage (Some 50) "ping" in
  let r := mkInMsg (Some "resp"%string) (Some "7:1"%string) None None None (Some "pong"%string) in
  (call 10000 msg b = (fst (call 10000 msg b), 1) /\ in_cmd r = Some "resp" /\
   in_mid r = Some (next_mid b)) /\
  let b2 := fire_timer (next_timer b) (fst (call 10000 msg b)) in
  on_message r b2 = set_callQueue (delete (next_mid b) (callQueue b2)) b2 /\
  promises b2 !! 1 = Some (PRejected timeout_error).
Proof.
  intros b msg r. split; [split; [reflexivity | split; reflexivity] |].
  apply (late_response_after_timeout 10000 msg b (fst (call 10000 msg b)) 1 r); reflexivity.
Defined.

(** An inbound ['call'] with a mid is answered by posting one ['resp']
    with the same mid and an [undefined] response; the pending-call
    table, timers and promises are left alone. *)
Theorem inbound_call_answered (m : InMsg) (b : Bridge) (mid : string) :
  in_cmd m = Some "call" -> in_mid m = Some mid -> mid <> "" ->
  on_message m b = post (OutResp mid None) b.
Proof.
  intros Hc Hm Hne. unfold on_message, resp_entry.
  rewrite Hc, bool_decide_false by discriminate.
  rewrite bool_decide_true by reflexivity. rewrite Hm.
  assert (T : str_truthy (Some mid) = true) by (apply str_truthy_Some; exact Hne).
  rewrite T. reflexivity.
Qed.

Lemma inbound_call_answered_witness :
  let m := mkInMsg (Some "call"%string) (Some "p:3"%string) None None None None in
  let b := mkBridge ∅ 0 0 ∅ 0 ∅ [] in
  (in_cmd m = Some "call" /\ in_mid m = Some "p:3"%string /\ "p:3" <> "") /\
  on_message m b = post (OutResp "p:3" None) b.
Proof.
  intros m b. split; [split; [reflexivity | split; [reflexivity | discriminate]] |].
  apply inbound_call_answered; first [reflexivity | discriminate].
Defined.

(** An error response to a pending call rejects it with an error carrying
    the response's message, and its [code] and [statusCode] when they are
    set (non-empty, non-zero); an empty code or a zero status is dropped. *)
Theorem error_response_fields (E : nat) (msg : CallMessage) (b b1 : Bridge) (p : nat)
    (r : InMsg) (text : string) :
  call E msg b = (b1, p) ->
  in_cmd r = Some "resp" -> in_mid r = Some (next_mid b) ->
  in_error r = Some text -> text <> "" ->
  exists e, promises (on_message r b1) !! p = Some (PRejected e) /\
    err_message e = text /\
    err_code e = (if str_truthy (in_code r) then in_code r else None) /\
    err_statusCode e = (if Z_truthy (in_statusCode r) then in_statusCode r else None) /\
    err_responseCode e = None.
Proof.
  intros Hc Hcmd Hmid He Hne.
  pose proof (call_response_settles E msg b r Hcmd Hmid) as Hp.
  assert (Hb1 : b1 = fst (call E msg b)) by (rewrite Hc; reflexivity).
  assert (Hp1 : p = S (mids b)) by (rewrite call_eq in Hc; injection Hc as _ <-; reflexivity).
  subst b1 p. rewrite Hp. unfold response_outcome. rewrite He.
  assert (T : str_truthy (Some text) = true) by (apply str_truthy_Some; exact Hne).
  rewrite T. eexists. split; [reflexivity |]. simpl.
  split; [reflexivity | split; [reflexivity | split; reflexivity]].
Qed.

Lemma error_response_fields_witness :
  let b := mkBridge ∅ 0 7 ∅ 0 ∅ [] in
  let msg := mkCallMessage None "ping" in
  let r := mkInMsg (Some "resp"%string) (Some "7:1"%string) (Some "Not found"%string)
                   (Some "NotFound"%string) (Some 404%Z) None in
  (call 10000 msg b = (fst (call 10000 msg b), 1) /\ in_cmd r = Some "resp" /\
   in_mid r = Some (next_mid b) /\ in_error r = Some "Not found"%string /\ "Not found" <> "") /\
  exists e, promises (on_message r (fst (call 10000 msg b))) !! 1 = Some (PRejected e) /\
    err_message e = "Not found" /\
    err_code e = (if str_truthy (in_code r) then in_code r else None) /\
    err_statusCode e = (if Z_truthy (in_statusCode r) then in_statusCode r else None) /\
    err_responseCode e = None.
Proof.
  intros b msg r.
  split; [repeat split; first [reflexivity | discriminate] |].
  apply (error_response_fields 10000 msg b (fst (call 10000 msg b)) 1 r "Not found");
    first [reflexivity | discriminate].
Defined.

End RpcBridgeMore.

(* ------------------------------------------------------------------ *)
(** ** Bull dashboard routing *)

Lemma strip_leading_slashes_head (s : string) (c : ascii) (rest : string) :
  strip_leading_slashes s = String c rest -> c <> "/"%char.
Proof.
  induction s as [| d s IH]; simpl; [discriminate |].
  destruct (Ascii.eqb d "/") eqn:Hd; [exact IH |].
  intros H. injection H as <- _. intros E. subst. discriminate.
Qed.

Lemma strip_leading_slashes_idem (s : string) :
  strip_leading_slashes (strip_leading_slashes s) = strip_leading_slashes s.
Proof.
  induction s as [| d s IH]; simpl; [reflexivity |].
  destruct (Ascii.eqb d "/") eqn:Hd; [exact IH |]. simpl. rewrite Hd. reflexivity.
Qed.

(** The base path [arenaExpress] uses always starts with exactly one
    slash (the next character, if any, is not a slash), and normalizing
    it again gives it back unchanged. *)
Theorem arena_basePath_normal (basePath : option string) :
  (exists rest, arena_basePath basePath = String "/" rest /\
     forall c rest', rest = String c rest' -> c <> "/"%char) /\
  arena_basePath (Some (arena_basePath basePath)) = arena_basePath basePath.
Proof.
  split.
  - eexists. split; [reflexivity |]. intros c rest' H. exact (strip_leading_slashes_head _ _ _ H).
  - unfold arena_basePath, slash_prefix. simpl. rewrite strip_leading_slashes_idem. reflexivity.
Qed.

(** When the base path is absent, empty or only slashes, the router
    rewrites every request URL to one starting with two slashes: the base
    ["/"] followed by the URL with its own leading slash. *)
Theorem arena_rewrite_empty_base (basePath url : option string) :
  strip_leading_slashes (default "" basePath) = "" ->
  arena_rewrite_url basePath url = String "/" (String "/" (strip_leading_slashes (default "" url))).
Proof.
  intros H. unfold arena_rewrite_url, arena_basePath, slash_prefix. rewrite H. reflexivity.
Qed.

Lemma arena_rewrite_empty_base_witness :
  strip_leading_slashes (default "" None) = "" /\
  arena_rewrite_url None (Some "/queues/submit"%string) =
    String "/" (String "/" (strip_leading_slashes (default "" (Some "/queues/submit"%string)))).
Proof.
  split; [reflexivity |]. apply arena_rewrite_empty_base. reflexivity.
Defined.

Lemma onData_queued_payload_witness :
  let m := mkMessage [mkHeaderLine "x-ee-account" "acct1" "X-EE-Account: acct1";
                      mkHeaderLine "subject" "hi" "Subject: hi"] ["body"%string] in
  let env := mkEnv (Ok None) (fun _ => LoadReturns (Some "acct1"%string)) in
  let session := mkSession 4 false "a@example.com" ["b@example.com"%string] in
  let queue := fun (_ : Account) (_ : Payload (Chunk := string)) =>
                 Ok (mkQueueResult "<m1@example.com>" "2026-10-16T00:00:00.000Z" "q1") in
  let acc := mkAccount "acct1" None in
  let p := mkPayload "a@example.com" ["b@example.com"%string]
                     (mkMessage [mkHeaderLine "subject" "hi" "Subject: hi"] ["body"%string]) in
  In (EQueueMessage acc p) (snd (onData env queue ∅ (mkStream m None) session)) /\
  (env_from p = sess_from session /\ env_to p = sess_to session /\
   msg_headers (raw p) = headers_remove (msg_headers m) "x-ee-account" /\
   Forall (fun l => hl_key l <> "x-ee-account") (msg_headers (raw p)) /\
   msg_body (raw p) = msg_body m).
Proof.
  intros m env session queue acc p.
  assert (H : In (EQueueMessage acc p) (snd (onData env queue ∅ (mkStream m None) session))).
  { vm_compute. right. left. reflexivity. }
  split; [exact H |]. exact (onData_queued_payload env queue ∅ m None session acc p H).
Defined.
